(** * CoreLocalArray (util/core_local.h): a shallow embedding and its properties

    The header defines a class template [CoreLocalArray<T>]: an array of
    [1 << size_shift_] values of [T], one slot per (rounded up) CPU core.
    The embedding below follows the header member by member.

    - C++ integers are values of [Z]; every conversion and every operation
      that can leave the range of its type is written out ([to_uint],
      [to_size_t], [shl_uint], [shl_int], [sub_int]).
    - A call ends in an [outcome]: a value, a failed [assert], a
      [std::bad_alloc], or behaviour the language leaves undefined.
    - The services the header consumes ([std::thread::hardware_concurrency],
      [port::PhysicalCoreID], [Random::GetTLSInstance()->Uniform],
      [operator new[]]) are not part of the header; their answers are
      arguments of the embedded members or fields of [Platform]. *)

From Stdlib Require Import ZArith Bool Lia List.
Import ListNotations.
Local Open Scope Z_scope.

(** ** Outcomes *)

Inductive outcome (A : Type) : Type :=
| Ret (a : A)     (* the call returns [a] *)
| AssertFail      (* an [assert] fired: the process aborts *)
| BadAlloc        (* [new] threw [std::bad_alloc] (or [std::bad_array_new_length]) *)
| Undefined       (* behaviour undefined by the language *)
| OutOfFuel.      (* the loop bound of the model was reached *)

Arguments Ret {A} a.
Arguments AssertFail {A}.
Arguments BadAlloc {A}.
Arguments Undefined {A}.
Arguments OutOfFuel {A}.

Definition bind {A B : Type} (m : outcome A) (k : A -> outcome B) : outcome B :=
  match m with
  | Ret a => k a
  | AssertFail => AssertFail
  | BadAlloc => BadAlloc
  | Undefined => Undefined
  | OutOfFuel => OutOfFuel
  end.

Notation "x <- m ;; k" := (bind m (fun x => k))
  (at level 61, m at next level, right associativity).
Notation "' pat <- m ;; k" := (bind m (fun x => match x with pat => k end))
  (at level 61, pat pattern, m at next level, right associativity).

(** ** Machine integers (LP64: 32-bit [int] and [unsigned], 64-bit [size_t]) *)

Definition UINT_MAX : Z := 2 ^ 32 - 1.
Definition INT_MAX : Z := 2 ^ 31 - 1.
Definition INT_MIN : Z := - 2 ^ 31.

(** Conversion to [unsigned int]: reduction modulo 2^32. *)
Definition to_uint (x : Z) : Z := x mod 2 ^ 32.

(** Conversion to [size_t]: reduction modulo 2^64. *)
Definition to_size_t (x : Z) : Z := x mod 2 ^ 64.

(** Conversion of a value that fits [unsigned int] to [int] (two's complement). *)
Definition to_int (x : Z) : Z := if x <=? INT_MAX then x else x - 2 ^ 32.

(** [a << s] on [unsigned int]: undefined when the count is not below the
    width of the type, otherwise the product reduced modulo 2^32. *)
Definition shl_uint (a s : Z) : outcome Z :=
  if (0 <=? s) && (s <? 32) then Ret (to_uint (Z.shiftl a s)) else Undefined.

(** [a << s] on [int]: undefined when the count is not below the width, when
    [a] is negative, or when [a * 2^s] does not fit the unsigned type;
    otherwise that value converted to [int]. *)
Definition shl_int (a s : Z) : outcome Z :=
  if (0 <=? s) && (s <? 32) && (0 <=? a) && (Z.shiftl a s <=? UINT_MAX)
  then Ret (to_int (Z.shiftl a s))
  else Undefined.

(** [a - b] on [int]: signed overflow is undefined. *)
Definition sub_int (a b : Z) : outcome Z :=
  let r := a - b in
  if (INT_MIN <=? r) && (r <=? INT_MAX) then Ret r else Undefined.

(** ** What the header is compiled against *)

Class Platform : Type := {
  (** [sizeof(T)] for the element type of the instantiation. *)
  sizeof_T : Z;
  (** Whether [NDEBUG] is defined, which turns [assert] into nothing. *)
  NDEBUG : bool;
  (** State of the thread-local generator behind [Random::GetTLSInstance()]. *)
  Random : Type;
  (** [Random::Uniform(int n)]: the number drawn and the generator afterwards. *)
  Uniform : Random -> Z -> Z * Random;
}.

(** [assert(cond)]: with [NDEBUG] the condition is not even evaluated. *)
Definition assert_ {P : Platform} (cond : outcome bool) : outcome unit :=
  if NDEBUG then Ret tt
  else b <- cond ;; if b then Ret tt else AssertFail.

(** ** The class *)

(** The two data members: [data_] (the address held by the [unique_ptr<T[]>])
    and [size_shift_]. *)
Record CoreLocalArray : Type := {
  data_ : Z;
  size_shift_ : Z;
}.

(** [while (1u << size_shift_ < num_cpus) ++size_shift_;] started from
    the current [size_shift]. *)
Fixpoint ctor_loop (fuel : nat) (num_cpus size_shift : Z) : outcome Z :=
  match fuel with
  | O => OutOfFuel
  | S fuel' =>
      p <- shl_uint 1 size_shift ;;
      if p <? num_cpus
      then ctor_loop fuel' num_cpus (to_size_t (size_shift + 1))
      else Ret size_shift
  end.

(** [new T[n]] for an [int] length [n]: a negative length throws
    [std::bad_array_new_length]; otherwise the allocation function is asked
    for [n * sizeof(T)] bytes and either gives a block or throws. *)
Definition new_array {P : Platform} (operator_new : Z -> option Z) (n : Z) : outcome Z :=
  if n <? 0 then BadAlloc
  else match operator_new (n * sizeof_T) with
       | Some p => Ret p
       | None => BadAlloc
       end.

(** [CoreLocalArray<T>::CoreLocalArray()], given the answer of
    [std::thread::hardware_concurrency()] and the allocation function. *)
Definition CoreLocalArray_ctor {P : Platform} (fuel : nat) (hardware_concurrency : Z)
    (operator_new : Z -> option Z) : outcome CoreLocalArray :=
  let num_cpus := hardware_concurrency in
  size_shift <- ctor_loop fuel num_cpus 3 ;;
  n <- shl_int 1 size_shift ;;
  p <- new_array operator_new n ;;
  Ret {| data_ := p; size_shift_ := size_shift |}.

(** [CoreLocalArray<T>::Size()]: [1u << size_shift_] converted to [size_t]. *)
Definition Size (arr : CoreLocalArray) : outcome Z :=
  p <- shl_uint 1 (size_shift_ arr) ;;
  Ret (to_size_t p).

(** [&data_[core_idx]] for an index inside the block. Outside the block the
    C++ expression is undefined (the machine computes the address modulo
    2^64); nothing below depends on the value given there. *)
Definition element_address {P : Platform} (arr : CoreLocalArray) (core_idx : Z) : Z :=
  data_ arr + core_idx * sizeof_T.

(** [CoreLocalArray<T>::AccessAtCore(core_idx)]. *)
Definition AccessAtCore {P : Platform} (arr : CoreLocalArray) (core_idx : Z) : outcome Z :=
  _ <- assert_ (p <- shl_uint 1 (size_shift_ arr) ;; Ret (core_idx <? to_size_t p)) ;;
  Ret (element_address arr core_idx).

(** The [else] branch of [AccessElementAndIndex]:
    [static_cast<size_t>(cpuid & ((1 << size_shift_) - 1))]. *)
Definition masked_index (arr : CoreLocalArray) (cpuid : Z) : outcome Z :=
  n <- shl_int 1 (size_shift_ arr) ;;
  m <- sub_int n 1 ;;
  Ret (to_size_t (Z.land cpuid m)).

(** The [then] branch:
    [Random::GetTLSInstance()->Uniform(1 << size_shift_)], converted to
    [size_t]. *)
Definition random_index {P : Platform} (arr : CoreLocalArray) (rng : Random)
    : outcome (Z * Random) :=
  n <- shl_int 1 (size_shift_ arr) ;;
  let (r, rng') := Uniform rng n in
  Ret (to_size_t r, rng').

(** [CoreLocalArray<T>::AccessElementAndIndex()], given the answer [cpuid]
    of [port::PhysicalCoreID()] and the thread's generator. The result is
    the pair (pointer, index) and the generator afterwards. *)
Definition AccessElementAndIndex {P : Platform} (arr : CoreLocalArray) (cpuid : Z)
    (rng : Random) : outcome ((Z * Z) * Random) :=
  '(core_idx, rng') <-
    (if cpuid <? 0
     then random_index arr rng
     else core_idx <- masked_index arr cpuid ;; Ret (core_idx, rng)) ;;
  p <- AccessAtCore arr core_idx ;;
  Ret ((p, core_idx), rng').

(** [CoreLocalArray<T>::Access()]: [AccessElementAndIndex().first]. *)
Definition Access {P : Platform} (arr : CoreLocalArray) (cpuid : Z) (rng : Random)
    : outcome (Z * Random) :=
  r <- AccessElementAndIndex arr cpuid rng ;;
  Ret (fst (fst r), snd r).

(** An array is [Constructed] when some run of the constructor returned it. *)
Definition Constructed {P : Platform} (arr : CoreLocalArray) : Prop :=
  exists fuel hardware_concurrency operator_new,
    CoreLocalArray_ctor fuel hardware_concurrency operator_new = Ret arr.

(** ** A client's view: the object, the thread's generator and the slots *)

(** The members are [const]; what a thread can observe changing is its own
    generator and, through the pointers it was handed, the slot contents.
    [slots] maps an address to the element stored there. *)
Record World {P : Platform} (T : Type) : Type := {
  self : CoreLocalArray;
  tls : Random;
  slots : Z -> T;
}.

Arguments self {P T} w.
Arguments tls {P T} w.
Arguments slots {P T} w.

Inductive call (T : Type) : Type :=
| CallSize
| CallAccess (cpuid : Z)
| CallAccessElementAndIndex (cpuid : Z)
| CallAccessAtCore (core_idx : Z)
| StoreAtCore (core_idx : Z) (v : T).   (* [*arr.AccessAtCore(core_idx) = v] *)

Arguments CallSize {T}.
Arguments CallAccess {T} cpuid.
Arguments CallAccessElementAndIndex {T} cpuid.
Arguments CallAccessAtCore {T} core_idx.
Arguments StoreAtCore {T} core_idx v.

Definition store {T : Type} (m : Z -> T) (p : Z) (v : T) : Z -> T :=
  fun q => if q =? p then v else m q.

(** One call made by the thread owning [tls w]; [cpuid] in a call is what
    [port::PhysicalCoreID()] answers during it. Writing through a pointer
    outside the block is undefined. *)
Definition perform {P : Platform} {T : Type} (c : call T) (w : World T) : outcome (World T) :=
  match c with
  | CallSize => _ <- Size (self w) ;; Ret w
  | CallAccess cpuid =>
      '(_, rng') <- Access (self w) cpuid (tls w) ;;
      Ret {| self := self w; tls := rng'; slots := slots w |}
  | CallAccessElementAndIndex cpuid =>
      '(_, rng') <- AccessElementAndIndex (self w) cpuid (tls w) ;;
      Ret {| self := self w; tls := rng'; slots := slots w |}
  | CallAccessAtCore core_idx => _ <- AccessAtCore (self w) core_idx ;; Ret w
  | StoreAtCore core_idx v =>
      p <- AccessAtCore (self w) core_idx ;;
      n <- Size (self w) ;;
      if (0 <=? core_idx) && (core_idx <? n)
      then Ret {| self := self w; tls := tls w; slots := store (slots w) p v |}
      else Undefined
  end.

(** ** The members as code running on the object

    To say what a member leaves unchanged, its body is written once more as
    code that runs on the whole [World]: it is handed the object, the
    generator and the slot contents, and hands back all three. The body can
    only act through the reads and writes below; which of them it uses is
    read off the source. *)

Definition method {P : Platform} (T A : Type) : Type := World T -> outcome (A * World T).

Definition ret_ {P : Platform} {T A : Type} (a : A) : method T A := fun w => Ret (a, w).

Definition bind_ {P : Platform} {T A B : Type} (m : method T A) (k : A -> method T B)
    : method T B :=
  fun w => '(a, w') <- m w ;; k a w'.

Notation "x <~ m ;; k" := (bind_ m (fun x => k))
  (at level 61, m at next level, right associativity).

(** An integer operation or an allocation inside a member. *)
Definition lift {P : Platform} {T A : Type} (o : outcome A) : method T A :=
  fun w => a <- o ;; Ret (a, w).

(** Reading [size_shift_] and [data_.get()]. *)
Definition read_size_shift {P : Platform} {T : Type} : method T Z :=
  fun w => Ret (size_shift_ (self w), w).

Definition read_data {P : Platform} {T : Type} : method T Z :=
  fun w => Ret (data_ (self w), w).

(** Assigning [size_shift_] and [data_.reset(p)]. *)
Definition write_size_shift {P : Platform} {T : Type} (s : Z) : method T unit :=
  fun w => Ret (tt, {| self := {| data_ := data_ (self w); size_shift_ := s |};
                       tls := tls w; slots := slots w |}).

Definition reset_data {P : Platform} {T : Type} (p : Z) : method T unit :=
  fun w => Ret (tt, {| self := {| data_ := p; size_shift_ := size_shift_ (self w) |};
                       tls := tls w; slots := slots w |}).

(** [Random::GetTLSInstance()->Uniform(n)]: advances the thread's generator. *)
Definition draw_uniform {P : Platform} {T : Type} (n : Z) : method T Z :=
  fun w => let (r, rng') := Uniform (tls w) n in
           Ret (r, {| self := self w; tls := rng'; slots := slots w |}).

(** [*p = v] by the caller. *)
Definition write_slot {P : Platform} {T : Type} (p : Z) (v : T) : method T unit :=
  fun w => Ret (tt, {| self := self w; tls := tls w; slots := store (slots w) p v |}).

Definition assert_method {P : Platform} {T : Type} (cond : method T bool) : method T unit :=
  if NDEBUG then ret_ tt
  else b <~ cond ;; if b then ret_ tt else lift AssertFail.

(** The constructor: [size_shift_ = 3], the loop with [++size_shift_], and
    [data_.reset(new T[1 << size_shift_])]. *)
Fixpoint ctor_loop_method {P : Platform} {T : Type} (fuel : nat) (num_cpus : Z)
    : method T unit :=
  match fuel with
  | O => lift OutOfFuel
  | S fuel' =>
      s <~ read_size_shift ;;
      p <~ lift (shl_uint 1 s) ;;
      if p <? num_cpus
      then _ <~ write_size_shift (to_size_t (s + 1)) ;; ctor_loop_method fuel' num_cpus
      else ret_ tt
  end.

Definition CoreLocalArray_ctor_method {P : Platform} {T : Type} (fuel : nat)
    (hardware_concurrency : Z) (operator_new : Z -> option Z) : method T unit :=
  let num_cpus := hardware_concurrency in
  _ <~ write_size_shift 3 ;;
  _ <~ ctor_loop_method fuel num_cpus ;;
  s <~ read_size_shift ;;
  n <~ lift (shl_int 1 s) ;;
  p <~ lift (new_array operator_new n) ;;
  reset_data p.

(** [Size()]. *)
Definition Size_method {P : Platform} {T : Type} : method T Z :=
  s <~ read_size_shift ;;
  p <~ lift (shl_uint 1 s) ;;
  ret_ (to_size_t p).

(** [AccessAtCore(core_idx)]. *)
Definition AccessAtCore_method {P : Platform} {T : Type} (core_idx : Z) : method T Z :=
  _ <~ assert_method
         (s <~ read_size_shift ;;
          p <~ lift (shl_uint 1 s) ;;
          ret_ (core_idx <? to_size_t p)) ;;
  d <~ read_data ;;
  ret_ (d + core_idx * sizeof_T).

(** [AccessElementAndIndex()], [cpuid] being the answer of
    [port::PhysicalCoreID()]. *)
Definition AccessElementAndIndex_method {P : Platform} {T : Type} (cpuid : Z)
    : method T (Z * Z) :=
  core_idx <~
    (if cpuid <? 0
     then s <~ read_size_shift ;;
          n <~ lift (shl_int 1 s) ;;
          r <~ draw_uniform n ;;
          ret_ (to_size_t r)
     else s <~ read_size_shift ;;
          n <~ lift (shl_int 1 s) ;;
          m <~ lift (sub_int n 1) ;;
          ret_ (to_size_t (Z.land cpuid m))) ;;
  p <~ AccessAtCore_method core_idx ;;
  ret_ (p, core_idx).

(** [Access()]. *)
Definition Access_method {P : Platform} {T : Type} (cpuid : Z) : method T Z :=
  r <~ AccessElementAndIndex_method cpuid ;;
  ret_ (fst r).

(** A call by the thread: one of the four members, its result dropped, or
    a store through the pointer [AccessAtCore] gives (undefined when the
    pointer is outside the block). *)
Definition invoke {P : Platform} {T : Type} (c : call T) : method T unit :=
  match c with
  | CallSize => _ <~ Size_method ;; ret_ tt
  | CallAccess cpuid => _ <~ Access_method cpuid ;; ret_ tt
  | CallAccessElementAndIndex cpuid => _ <~ AccessElementAndIndex_method cpuid ;; ret_ tt
  | CallAccessAtCore core_idx => _ <~ AccessAtCore_method core_idx ;; ret_ tt
  | StoreAtCore core_idx v =>
      p <~ AccessAtCore_method core_idx ;;
      n <~ Size_method ;;
      if (0 <=? core_idx) && (core_idx <? n) then write_slot p v else lift Undefined
  end.

Fixpoint run {P : Platform} {T : Type} (cs : list (call T)) : method T unit :=
  match cs with
  | [] => ret_ tt
  | c :: cs' => _ <~ invoke c ;; run cs'
  end.

(** ** Two concrete platforms, used to evaluate the members *)

(** A Lehmer generator (multiplier 16807, modulus 2^31 - 1) whose [Uniform n]
    is the next number reduced modulo [n]. *)
Definition lehmer_uniform (seed n : Z) : Z * Z :=
  let seed' := (seed * 16807) mod 2147483647 in
  (seed' mod n, seed').

(** 64-byte elements, assertions compiled in. *)
Definition debug_platform : Platform :=
  {| sizeof_T := 64; NDEBUG := false; Random := Z; Uniform := lehmer_uniform |}.

(** 64-byte elements, assertions compiled out. *)
Definition release_platform : Platform :=
  {| sizeof_T := 64; NDEBUG := true; Random := Z; Uniform := lehmer_uniform |}.

(** An allocation function that always answers with the block at 4096. *)
Definition block_at_4096 : Z -> option Z := fun _ => Some 4096.

(** The array the constructor builds on an 8-core machine. *)
Definition arr8 : CoreLocalArray := {| data_ := 4096; size_shift_ := 3 |}.

(** A thread's world around [arr8] with every slot holding 0, and a short
    session: the four members and one store to slot 2. *)
Definition world8 : World (P := debug_platform) Z :=
  @Build_World debug_platform Z arr8 1 (fun _ => 0).

Definition session : list (call Z) :=
  [CallSize; CallAccess 13; StoreAtCore 2 7; CallAccessElementAndIndex (-1);
   CallAccessAtCore 5].

(** A closed form to compare the constructor's loop with: the exponent of
    the least power of two that is at least [num_cpus], and never below 3. *)
Definition rounded_shift (num_cpus : Z) : Z := Z.max 3 (Z.log2_up num_cpus).

(** * Properties *)

(** ** Integer facts *)

Lemma pow2_bounds (s hi : Z) : 0 <= s <= hi -> 0 < 2 ^ s <= 2 ^ hi.
Proof.
  intros Hs. split.
  - apply Z.pow_pos_nonneg; lia.
  - apply Z.pow_le_mono_r; lia.
Qed.

Lemma pow2_lt (s hi : Z) : 0 <= s < hi -> 2 ^ s < 2 ^ hi.
Proof. intros Hs. apply Z.pow_lt_mono_r; lia. Qed.

Lemma shl_uint_1 (s : Z) : 0 <= s < 32 -> shl_uint 1 s = Ret (2 ^ s).
Proof.
  intros Hs. unfold shl_uint, to_uint.
  destruct (Z.leb_spec 0 s), (Z.ltb_spec s 32); try lia. simpl.
  rewrite Z.shiftl_1_l, Z.mod_small; auto.
  pose proof (pow2_lt s 32 ltac:(lia)). pose proof (pow2_bounds s 32 ltac:(lia)). lia.
Qed.

Lemma shl_uint_wide (a s : Z) : 32 <= s -> shl_uint a s = Undefined.
Proof.
  intros Hs. unfold shl_uint.
  destruct (Z.ltb_spec s 32); try lia. now rewrite andb_false_r.
Qed.

Lemma shl_int_1 (s : Z) : 0 <= s <= 30 -> shl_int 1 s = Ret (2 ^ s).
Proof.
  intros Hs. unfold shl_int, to_int, UINT_MAX, INT_MAX.
  rewrite Z.shiftl_1_l.
  pose proof (pow2_bounds s 30 Hs) as Hp.
  assert (E30 : 2 ^ 30 = 1073741824) by reflexivity.
  assert (E31 : 2 ^ 31 = 2147483648) by reflexivity.
  assert (E32 : 2 ^ 32 = 4294967296) by reflexivity.
  rewrite E30 in Hp. rewrite E31, E32.
  rewrite (proj2 (Z.leb_le 0 s)), (proj2 (Z.ltb_lt s 32)), (proj2 (Z.leb_le 0 1)),
    (proj2 (Z.leb_le (2 ^ s) _)), (proj2 (Z.leb_le (2 ^ s) _)) by lia.
  reflexivity.
Qed.

Lemma to_size_t_small (x : Z) : 0 <= x < 2 ^ 32 -> to_size_t x = x.
Proof.
  intros Hx. unfold to_size_t. apply Z.mod_small.
  assert (2 ^ 32 < 2 ^ 64) by reflexivity. lia.
Qed.

(** ** The constructor's loop *)

(** What a returning loop guarantees: the shift stayed below the width of
    [unsigned], [2^shift] reaches [num_cpus], and no smaller shift tried did. *)
Lemma ctor_loop_Ret (fuel : nat) :
  forall num_cpus s s',
    0 <= s ->
    ctor_loop fuel num_cpus s = Ret s' ->
    s <= s' < 32 /\ num_cpus <= 2 ^ s' /\ (forall k, s <= k < s' -> 2 ^ k < num_cpus).
Proof.
  induction fuel as [|fuel IH]; intros n s s' Hs Hrun; simpl in Hrun.
  - discriminate.
  - destruct (Z.lt_ge_cases s 32) as [Hlt|Hge].
    + rewrite shl_uint_1 in Hrun by lia. simpl in Hrun.
      destruct (Z.ltb_spec (2 ^ s) n) as [Hless|Hreach].
      * rewrite to_size_t_small in Hrun by lia.
        apply IH in Hrun; [|lia].
        destruct Hrun as (Hrange & Hreach & Hbelow).
        repeat split; try lia.
        intros k Hk. destruct (Z.eq_dec k s) as [->|Hne]; [assumption|].
        apply Hbelow; lia.
      * injection Hrun as <-. repeat split; try lia.
    + rewrite shl_uint_wide in Hrun by lia. discriminate.
Qed.

(** While [num_cpus] fits below 2^31 + 1 the loop returns within 29 tests. *)
Lemma ctor_loop_terminates (fuel : nat) :
  forall num_cpus s,
    0 <= s <= 31 ->
    num_cpus <= 2 ^ 31 ->
    31 - s < Z.of_nat fuel ->
    exists s', ctor_loop fuel num_cpus s = Ret s'.
Proof.
  induction fuel as [|fuel IH]; intros n s Hs Hn Hfuel; [lia|].
  simpl. rewrite shl_uint_1 by lia. simpl.
  destruct (Z.ltb_spec (2 ^ s) n) as [Hless|Hreach].
  - assert (s < 31).
    { destruct (Z.eq_dec s 31) as [->|]; lia. }
    rewrite to_size_t_small by lia.
    apply IH; lia.
  - eauto.
Qed.

(** Above 2^31 no shift below 32 suffices: the loop runs through every one
    of them and then shifts by 32. *)
Lemma ctor_loop_starved (fuel : nat) :
  forall num_cpus s,
    2 ^ 31 < num_cpus ->
    0 <= s ->
    s + Z.of_nat fuel <= 32 ->
    ctor_loop fuel num_cpus s = OutOfFuel.
Proof.
  induction fuel as [|fuel IH]; intros n s Hn Hs Hfuel; [reflexivity|].
  simpl. rewrite shl_uint_1 by lia. simpl.
  pose proof (pow2_bounds s 31 ltac:(lia)).
  destruct (Z.ltb_spec (2 ^ s) n); [|lia].
  rewrite to_size_t_small by lia.
  apply IH; lia.
Qed.

Lemma ctor_loop_shift_overflow (fuel : nat) :
  forall num_cpus s,
    2 ^ 31 < num_cpus ->
    0 <= s <= 32 ->
    32 - s < Z.of_nat fuel ->
    ctor_loop fuel num_cpus s = Undefined.
Proof.
  induction fuel as [|fuel IH]; intros n s Hn Hs Hfuel; [lia|].
  simpl. destruct (Z.eq_dec s 32) as [->|Hne]; [reflexivity|].
  rewrite shl_uint_1 by lia. simpl.
  pose proof (pow2_bounds s 31 ltac:(lia)).
  destruct (Z.ltb_spec (2 ^ s) n); [|lia].
  rewrite to_size_t_small by lia.
  apply IH; lia.
Qed.

(** ** The constructor *)

Section Construction.
Context `{P : Platform}.

(** A returned array was built from the loop's shift, that shift is between
    3 and 30, and the block is what the allocation function gave for
    [2^shift] elements. *)
Lemma ctor_Ret_inv (fuel : nat) (n : Z) (operator_new : Z -> option Z) (arr : CoreLocalArray) :
  CoreLocalArray_ctor fuel n operator_new = Ret arr ->
  ctor_loop fuel n 3 = Ret (size_shift_ arr) /\
  3 <= size_shift_ arr <= 30 /\
  operator_new (2 ^ size_shift_ arr * sizeof_T) = Some (data_ arr).
Proof.
  unfold CoreLocalArray_ctor. intros Hctor.
  destruct (ctor_loop fuel n 3) as [s| | | |] eqn:Hloop; try discriminate.
  simpl in Hctor.
  destruct (ctor_loop_Ret fuel n 3 s ltac:(lia) Hloop) as (Hrange & _ & _).
  destruct (Z.eq_dec s 31) as [->|Hne].
  - (* 1 << 31 is INT_MIN: a negative length *)
    discriminate.
  - rewrite shl_int_1 in Hctor by lia. simpl in Hctor.
    unfold new_array in Hctor.
    pose proof (pow2_bounds s 30 ltac:(lia)).
    destruct (Z.ltb_spec (2 ^ s) 0); [lia|].
    destruct (operator_new (2 ^ s * sizeof_T)) as [p|] eqn:Hnew; [|discriminate].
    injection Hctor as <-. cbn [size_shift_ data_].
    split; [reflexivity|]. split; [lia|]. exact Hnew.
Qed.

Lemma Constructed_shift_range (arr : CoreLocalArray) :
  Constructed arr -> 3 <= size_shift_ arr <= 30.
Proof.
  intros (fuel & n & operator_new & Hctor).
  now apply ctor_Ret_inv in Hctor.
Qed.

(** With at most 2^30 processors reported, 29 units of fuel and an
    allocation function that provides, the constructor returns. *)
Lemma ctor_returns (fuel : nat) (n : Z) (operator_new : Z -> option Z) :
  n <= 2 ^ 30 ->
  (29 <= fuel)%nat ->
  (forall bytes, operator_new bytes <> None) ->
  exists arr, CoreLocalArray_ctor fuel n operator_new = Ret arr.
Proof.
  intros Hn Hfuel Hnew.
  assert (E : 2 ^ 30 < 2 ^ 31) by reflexivity.
  destruct (ctor_loop_terminates fuel n 3) as [s Hloop]; try lia.
  destruct (ctor_loop_Ret fuel n 3 s ltac:(lia) Hloop) as (Hrange & _ & Hbelow).
  assert (Hs : s <= 30).
  { destruct (Z.eq_dec s 31) as [->|]; [|lia].
    specialize (Hbelow 30 ltac:(lia)). lia. }
  unfold CoreLocalArray_ctor. rewrite Hloop. simpl.
  rewrite shl_int_1 by lia. simpl. unfold new_array.
  pose proof (pow2_bounds s 30 ltac:(lia)).
  destruct (Z.ltb_spec (2 ^ s) 0); [lia|].
  destruct (operator_new (2 ^ s * sizeof_T)) as [p|] eqn:Hp.
  - eexists. reflexivity.
  - now apply Hnew in Hp.
Qed.

(** Under the class invariant [Size()] is [2^size_shift_]. *)
Lemma Size_pow2 (arr : CoreLocalArray) :
  0 <= size_shift_ arr < 32 -> Size arr = Ret (2 ^ size_shift_ arr).
Proof.
  intros Hs. unfold Size. rewrite shl_uint_1 by lia. simpl.
  rewrite to_size_t_small; auto.
  pose proof (pow2_lt (size_shift_ arr) 32 ltac:(lia)).
  pose proof (pow2_bounds (size_shift_ arr) 32 ltac:(lia)). lia.
Qed.

(** C1: whenever the constructor returns an array, its [size_shift_] is the
    smallest shift with [2^shift >= max(hardware concurrency, 8)] and
    [Size()] returns [2^shift], so [Size()] is a power of two, at least 8
    and at least the number of processors reported; and the constructor does
    return when at most 2^30 processors are reported and memory is granted. *)
Theorem ctor_size_shift_smallest (fuel : nat) (hardware_concurrency : Z)
    (operator_new : Z -> option Z) :
  (forall arr,
     CoreLocalArray_ctor fuel hardware_concurrency operator_new = Ret arr ->
     0 <= size_shift_ arr /\
     Z.max hardware_concurrency 8 <= 2 ^ size_shift_ arr /\
     (forall k, 0 <= k -> Z.max hardware_concurrency 8 <= 2 ^ k -> size_shift_ arr <= k) /\
     Size arr = Ret (2 ^ size_shift_ arr) /\
     8 <= 2 ^ size_shift_ arr /\
     hardware_concurrency <= 2 ^ size_shift_ arr) /\
  (hardware_concurrency <= 2 ^ 30 ->
   (29 <= fuel)%nat ->
   (forall bytes, operator_new bytes <> None) ->
   exists arr, CoreLocalArray_ctor fuel hardware_concurrency operator_new = Ret arr).
Proof.
  split; [|apply ctor_returns].
  intros arr Hctor.
  apply ctor_Ret_inv in Hctor. destruct Hctor as (Hloop & Hshift & _).
  apply ctor_loop_Ret in Hloop; [|lia].
  destruct Hloop as (_ & Hreach & Hbelow).
  pose proof (pow2_bounds 3 (size_shift_ arr) ltac:(lia)) as H8.
  change (2 ^ 3) with 8 in H8.
  repeat split; try lia.
  - intros k Hk Hmax.
    destruct (Z.le_gt_cases (size_shift_ arr) k) as [|Hlt]; [assumption|exfalso].
    destruct (Z.le_gt_cases 3 k) as [H3|H3].
    + specialize (Hbelow k ltac:(lia)). lia.
    + pose proof (pow2_bounds k 2 ltac:(lia)) as H4.
      change (2 ^ 2) with 4 in H4. lia.
  - apply Size_pow2. lia.
Qed.

End Construction.

Lemma ctor_size_shift_smallest_witness :
  (CoreLocalArray_ctor (P := debug_platform) 29 20 block_at_4096
     = Ret {| data_ := 4096; size_shift_ := 5 |}) /\
  Size {| data_ := 4096; size_shift_ := 5 |} = Ret 32 /\
  (forall k, 0 <= k -> Z.max 20 8 <= 2 ^ k -> 5 <= k) /\
  (exists arr, CoreLocalArray_ctor (P := debug_platform) 29 20 block_at_4096 = Ret arr).
Proof.
  pose proof (ctor_size_shift_smallest (P := debug_platform) 29 20 block_at_4096)
    as [Hany Hreturns].
  assert (Hrun : CoreLocalArray_ctor (P := debug_platform) 29 20 block_at_4096
                 = Ret {| data_ := 4096; size_shift_ := 5 |}) by reflexivity.
  destruct (Hany _ Hrun) as (_ & _ & Hleast & Hsize & _).
  split; [exact Hrun|]. split; [exact Hsize|]. split; [exact Hleast|].
  apply Hreturns.
  - discriminate.
  - apply le_n.
  - discriminate.
Defined.

(** C10: when [hardware_concurrency()] answers 0 the loop body never runs:
    the shift stays 3 and, given the block for 8 elements, the constructor
    returns and [Size()] is 8. *)
Theorem ctor_zero_cpus {P : Platform} (fuel : nat) (operator_new : Z -> option Z) (base : Z) :
  (1 <= fuel)%nat ->
  operator_new (8 * sizeof_T) = Some base ->
  CoreLocalArray_ctor fuel 0 operator_new = Ret {| data_ := base; size_shift_ := 3 |} /\
  Size {| data_ := base; size_shift_ := 3 |} = Ret 8.
Proof.
  intros Hfuel Hnew. split; [|reflexivity].
  destruct fuel as [|fuel]; [inversion Hfuel|].
  unfold CoreLocalArray_ctor, new_array. cbn [ctor_loop].
  rewrite (shl_uint_1 3) by lia. change (2 ^ 3) with 8. cbn [bind].
  change (8 <? 0) with false. cbn [bind].
  rewrite (shl_int_1 3) by lia. change (2 ^ 3) with 8. cbn [bind].
  change (8 <? 0) with false. cbv iota.
  rewrite Hnew. reflexivity.
Qed.

Lemma ctor_zero_cpus_witness :
  CoreLocalArray_ctor (P := debug_platform) 1 0 block_at_4096 = Ret arr8 /\
  Size arr8 = Ret 8.
Proof.
  apply (ctor_zero_cpus (P := debug_platform) 1 block_at_4096 4096).
  - apply le_n.
  - reflexivity.
Defined.



(** Above 2^31, a count only the return type [unsigned] admits, the
    constructor does not return: the loop tests the shifts 3 to 31, finds
    every power too small, and then evaluates [1u << 32]. *)
Theorem ctor_overflow_above_2_31 {P : Platform} (fuel : nat) (operator_new : Z -> option Z) :
  CoreLocalArray_ctor fuel 2147483649 operator_new
  = if (fuel <? 30)%nat then OutOfFuel else Undefined.
Proof.
  assert (Hn : 2 ^ 31 < 2147483649) by reflexivity.
  unfold CoreLocalArray_ctor.
  destruct (Nat.ltb_spec fuel 30) as [Hshort|Hlong].
  - rewrite (ctor_loop_starved fuel 2147483649 3 Hn) by lia. reflexivity.
  - rewrite (ctor_loop_shift_overflow fuel 2147483649 3 Hn) by lia. reflexivity.
Qed.

(** On an 8-core machine one test of the loop suffices and the array is [arr8]. *)
Lemma ctor_returns_arr8 {P : Platform} :
  CoreLocalArray_ctor 1 8 block_at_4096 = Ret arr8.
Proof.
  unfold CoreLocalArray_ctor, new_array, block_at_4096. cbn [ctor_loop].
  rewrite (shl_uint_1 3) by lia. change (2 ^ 3) with 8. cbn [bind].
  change (8 <? 8) with false. cbn [bind].
  rewrite (shl_int_1 3) by lia. change (2 ^ 3) with 8. cbn [bind].
  change (8 <? 0) with false. reflexivity.
Qed.

(** ** Access *)

Lemma lehmer_uniform_range (seed n : Z) :
  0 < n -> 0 <= fst (lehmer_uniform seed n) < n.
Proof. intros Hn. unfold lehmer_uniform. simpl. apply Z.mod_pos_bound. exact Hn. Qed.

Lemma arr8_Constructed {P : Platform} : Constructed arr8.
Proof.
  exists 1%nat, 8, block_at_4096.
  apply ctor_returns_arr8.
Qed.

Section Access.
Context {P : Platform}.

(** The class invariant the constructor establishes. *)
Variable arr : CoreLocalArray.
Hypothesis arr_constructed : Constructed arr.

Let shift_range : 3 <= size_shift_ arr <= 30 := Constructed_shift_range arr arr_constructed.

Lemma Size_Constructed : Size arr = Ret (2 ^ size_shift_ arr).
Proof. apply Size_pow2. lia. Qed.

Lemma Size_bounds : 8 <= 2 ^ size_shift_ arr <= 2 ^ 30.
Proof.
  pose proof (pow2_bounds 3 (size_shift_ arr) ltac:(lia)) as Hlo.
  pose proof (pow2_bounds (size_shift_ arr) 30 ltac:(lia)) as Hhi.
  change (2 ^ 3) with 8 in Hlo. lia.
Qed.

(** With the index below [Size()] the assertion holds (or is compiled out)
    and the address of the slot is returned. *)
Lemma AccessAtCore_in_range (core_idx : Z) :
  core_idx < 2 ^ size_shift_ arr ->
  AccessAtCore arr core_idx = Ret (element_address arr core_idx).
Proof.
  intros Hidx. unfold AccessAtCore, assert_.
  destruct NDEBUG; [reflexivity|].
  rewrite shl_uint_1 by lia. cbn [bind].
  pose proof Size_bounds as Hsz.
  assert (E : 2 ^ 30 < 2 ^ 32) by reflexivity.
  rewrite to_size_t_small by lia.
  destruct (Z.ltb_spec core_idx (2 ^ size_shift_ arr)); [reflexivity|lia].
Qed.

(** The masked index is the core id reduced modulo [Size()]. *)
Lemma masked_index_mod (cpuid : Z) :
  0 <= cpuid ->
  masked_index arr cpuid = Ret (Z.land cpuid (2 ^ size_shift_ arr - 1)) /\
  Z.land cpuid (2 ^ size_shift_ arr - 1) = cpuid mod 2 ^ size_shift_ arr /\
  0 <= cpuid mod 2 ^ size_shift_ arr < 2 ^ size_shift_ arr.
Proof.
  intros Hc. pose proof Size_bounds as Hsz.
  assert (E30 : 2 ^ 30 = 1073741824) by reflexivity. rewrite E30 in Hsz.
  assert (Hland : Z.land cpuid (2 ^ size_shift_ arr - 1) = cpuid mod 2 ^ size_shift_ arr).
  { rewrite <- Z.land_ones by lia. now rewrite Z.ones_equiv, <- Z.sub_1_r. }
  assert (Hmod : 0 <= cpuid mod 2 ^ size_shift_ arr < 2 ^ size_shift_ arr)
    by (apply Z.mod_pos_bound; lia).
  repeat split; try lia.
  unfold masked_index. rewrite shl_int_1 by lia. cbn [bind].
  unfold sub_int, INT_MIN, INT_MAX. cbv zeta.
  assert (E31 : 2 ^ 31 = 2147483648) by reflexivity. rewrite E31.
  rewrite (proj2 (Z.leb_le _ (2 ^ size_shift_ arr - 1))),
    (proj2 (Z.leb_le (2 ^ size_shift_ arr - 1) _)) by lia.
  cbn [andb bind]. rewrite to_size_t_small; [reflexivity|].
  assert (E32 : 2 ^ 32 = 4294967296) by reflexivity. lia.
Qed.

(** On an identified core: mask, then [AccessAtCore]; the generator is untouched. *)
Lemma AccessElementAndIndex_identified (cpuid : Z) (rng : Random) :
  0 <= cpuid ->
  AccessElementAndIndex arr cpuid rng
  = Ret ((element_address arr (Z.land cpuid (2 ^ size_shift_ arr - 1)),
          Z.land cpuid (2 ^ size_shift_ arr - 1)), rng).
Proof.
  intros Hc. destruct (masked_index_mod cpuid Hc) as (Hmask & Hland & Hmod).
  unfold AccessElementAndIndex.
  destruct (Z.ltb_spec cpuid 0); [lia|].
  rewrite Hmask. cbn [bind].
  rewrite AccessAtCore_in_range by lia. reflexivity.
Qed.

(** [Access] is the first component of [AccessElementAndIndex], whatever
    the core id. *)
Lemma Access_first (cpuid : Z) (rng rng' : Random) (p index : Z) :
  AccessElementAndIndex arr cpuid rng = Ret ((p, index), rng') ->
  Access arr cpuid rng = Ret (p, rng').
Proof. intros Hcall. unfold Access. rewrite Hcall. reflexivity. Qed.

(** C2: for a non-negative answer [cpuid] of the core-identification
    service, [AccessElementAndIndex()] computes [index = cpuid & (Size() - 1)]
    and returns [(AccessAtCore(index), index)], the pointer being the address
    of slot [index]; and, for every answer of the service, [Access()] returns
    the pointer component of what [AccessElementAndIndex()] returns. *)
Theorem AccessElementAndIndex_masks_core_id (cpuid : Z) (rng : Random) :
  0 <= cpuid ->
  exists size p,
    Size arr = Ret size /\
    AccessAtCore arr (Z.land cpuid (size - 1)) = Ret p /\
    p = element_address arr (Z.land cpuid (size - 1)) /\
    AccessElementAndIndex arr cpuid rng = Ret ((p, Z.land cpuid (size - 1)), rng) /\
    Access arr cpuid rng = Ret (p, rng) /\
    (forall c r r' q i,
       AccessElementAndIndex arr c r = Ret ((q, i), r') -> Access arr c r = Ret (q, r')).
Proof.
  intros Hc. destruct (masked_index_mod cpuid Hc) as (_ & Hland & Hmod).
  exists (2 ^ size_shift_ arr), (element_address arr (Z.land cpuid (2 ^ size_shift_ arr - 1))).
  split; [apply Size_Constructed|].
  split; [apply AccessAtCore_in_range; lia|].
  split; [reflexivity|].
  split; [now apply AccessElementAndIndex_identified|].
  split.
  - apply Access_first with (index := Z.land cpuid (2 ^ size_shift_ arr - 1)).
    now apply AccessElementAndIndex_identified.
  - intros c r r' q i. apply Access_first.
Qed.

(** C5: the index obtained by masking a core id [c] with [Size() - 1] is
    [c mod Size()] (also with the truncating remainder of C++), and for
    [Size() = 8], [c = 13] it is 5. *)
Theorem masking_is_modulo (c : Z) :
  0 <= c ->
  exists size,
    Size arr = Ret size /\
    masked_index arr c = Ret (c mod size) /\
    Z.land c (size - 1) = c mod size /\
    Z.rem c size = c mod size /\
    (size = 8 -> c = 13 -> masked_index arr c = Ret 5).
Proof.
  intros Hc. destruct (masked_index_mod c Hc) as (Hmask & Hland & Hmod).
  exists (2 ^ size_shift_ arr).
  split; [apply Size_Constructed|].
  split; [now rewrite <- Hland|].
  split; [exact Hland|].
  split; [apply Z.rem_mod_nonneg; lia|].
  intros Hsize ->. rewrite Hmask, Hland, Hsize. reflexivity.
Qed.

(** C8: while the service keeps answering the same non-negative core id,
    every call of [AccessElementAndIndex()] returns the same pointer and the
    same index, and every call of [Access()] the same pointer, whatever the
    state of the thread's generator. *)
Theorem Access_deterministic_on_core (cpuid : Z) (rng1 rng2 : Random) :
  0 <= cpuid ->
  exists p index,
    AccessElementAndIndex arr cpuid rng1 = Ret ((p, index), rng1) /\
    AccessElementAndIndex arr cpuid rng2 = Ret ((p, index), rng2) /\
    Access arr cpuid rng1 = Ret (p, rng1) /\
    Access arr cpuid rng2 = Ret (p, rng2).
Proof.
  intros Hc.
  pose proof (AccessElementAndIndex_identified cpuid rng1 Hc) as H1.
  pose proof (AccessElementAndIndex_identified cpuid rng2 Hc) as H2.
  do 2 eexists. split; [exact H1|]. split; [exact H2|].
  split; eapply Access_first; eassumption.
Qed.

End Access.

Section Fallback.
Context {P : Platform}.

(** What the header relies on from [Random::Uniform(n)]: for a positive
    bound the number drawn is in [[0, n)]. *)
Hypothesis Uniform_range : forall (rng : Random) (n : Z), 0 < n -> 0 <= fst (Uniform rng n) < n.

Variable arr : CoreLocalArray.
Hypothesis arr_constructed : Constructed arr.

(** With the core unidentified the index is the number drawn with bound
    [1 << size_shift_], and it is below [Size()]. *)
Lemma AccessElementAndIndex_unidentified (cpuid : Z) (rng : Random) :
  cpuid < 0 ->
  AccessElementAndIndex arr cpuid rng
  = Ret ((element_address arr (fst (Uniform rng (2 ^ size_shift_ arr))),
          fst (Uniform rng (2 ^ size_shift_ arr))),
         snd (Uniform rng (2 ^ size_shift_ arr))) /\
  0 <= fst (Uniform rng (2 ^ size_shift_ arr)) < 2 ^ size_shift_ arr.
Proof.
  intros Hc.
  pose proof (Constructed_shift_range arr arr_constructed) as Hshift.
  pose proof (Size_bounds arr arr_constructed) as Hsz.
  assert (E30 : 2 ^ 30 = 1073741824) by reflexivity. rewrite E30 in Hsz.
  assert (E32 : 2 ^ 32 = 4294967296) by reflexivity.
  pose proof (Uniform_range rng (2 ^ size_shift_ arr) ltac:(lia)) as Hdraw.
  split; [|exact Hdraw].
  unfold AccessElementAndIndex, random_index.
  destruct (Z.ltb_spec cpuid 0); [|lia].
  rewrite shl_int_1 by lia. cbn [bind].
  destruct (Uniform rng (2 ^ size_shift_ arr)) as [r rng'] eqn:Hu.
  cbn [fst snd] in *. cbn [bind].
  rewrite to_size_t_small by lia.
  rewrite (AccessAtCore_in_range arr arr_constructed) by lia. reflexivity.
Qed.

(** C3: [AccessElementAndIndex()] and [Access()] return for every answer of
    the core-identification service; the index they use is below [Size()],
    so [AccessAtCore] is called within its precondition; and when the
    answer is negative the index is the number drawn from the thread's
    generator with bound [Size()]. *)
Theorem Access_always_returns (cpuid : Z) (rng : Random) :
  exists size p index rng',
    Size arr = Ret size /\
    AccessElementAndIndex arr cpuid rng = Ret ((p, index), rng') /\
    Access arr cpuid rng = Ret (p, rng') /\
    0 <= index < size /\
    AccessAtCore arr index = Ret p /\
    (cpuid < 0 -> (index, rng') = Uniform rng size).
Proof.
  exists (2 ^ size_shift_ arr).
  destruct (Z.lt_ge_cases cpuid 0) as [Hneg|Hpos].
  - destruct (AccessElementAndIndex_unidentified cpuid rng Hneg) as [Hcall Hdraw].
    do 3 eexists. split; [now apply Size_Constructed|].
    split; [exact Hcall|].
    split; [eapply Access_first; exact Hcall|].
    split; [exact Hdraw|].
    split; [apply AccessAtCore_in_range; [assumption|lia]|].
    intros _. now destruct (Uniform rng (2 ^ size_shift_ arr)).
  - pose proof (AccessElementAndIndex_identified arr arr_constructed cpuid rng ltac:(lia)) as Hcall.
    destruct (masked_index_mod arr arr_constructed cpuid ltac:(lia)) as (_ & Hland & Hmod).
    do 3 eexists. split; [now apply Size_Constructed|].
    split; [exact Hcall|].
    split; [eapply Access_first; exact Hcall|].
    split; [lia|].
    split; [apply AccessAtCore_in_range; [assumption|lia]|].
    lia.
Qed.

End Fallback.

Section Slots.
Context {P : Platform}.

(** [sizeof(T)] is at least 1 for every object type. *)
Hypothesis sizeof_T_pos : 0 < sizeof_T.

Variable arr : CoreLocalArray.
Hypothesis arr_constructed : Constructed arr.

(** C7: for two different indices below [Size()], [AccessAtCore] returns
    two different addresses; the [sizeof(T)] bytes starting at each do not
    overlap and lie inside the block of [Size()] elements at [data_]. *)
Theorem AccessAtCore_injective (size i j : Z) :
  Size arr = Ret size ->
  0 <= i < size ->
  0 <= j < size ->
  i <> j ->
  exists p q,
    AccessAtCore arr i = Ret p /\
    AccessAtCore arr j = Ret q /\
    p <> q /\
    (p + sizeof_T <= q \/ q + sizeof_T <= p) /\
    (data_ arr <= p /\ p + sizeof_T <= data_ arr + size * sizeof_T) /\
    (data_ arr <= q /\ q + sizeof_T <= data_ arr + size * sizeof_T).
Proof.
  intros Hsize Hi Hj Hij.
  rewrite (Size_Constructed arr arr_constructed) in Hsize. injection Hsize as <-.
  exists (element_address arr i), (element_address arr j).
  split; [apply AccessAtCore_in_range; [assumption|lia]|].
  split; [apply AccessAtCore_in_range; [assumption|lia]|].
  unfold element_address.
  split; [nia|].
  split; [destruct (Z.lt_ge_cases i j); [left|right]; nia|].
  split; split; nia.
Qed.

(** C4 (as amended): for an index at or above [Size()], [AccessAtCore]
    fails its assertion when assertions are compiled in, and returns no
    pointer; with [NDEBUG] the assertion is compiled out and does not fire. *)
Theorem AccessAtCore_out_of_range (size core_idx : Z) :
  Size arr = Ret size ->
  size <= core_idx ->
  (NDEBUG = false -> AccessAtCore arr core_idx = AssertFail) /\
  (NDEBUG = true -> AccessAtCore arr core_idx <> AssertFail).
Proof.
  intros Hsize Hidx.
  pose proof (Constructed_shift_range arr arr_constructed) as Hshift.
  pose proof (Size_bounds arr arr_constructed) as Hsz.
  rewrite (Size_Constructed arr arr_constructed) in Hsize. injection Hsize as <-.
  unfold AccessAtCore, assert_. split; intros ->.
  - rewrite shl_uint_1 by lia. cbn [bind].
    assert (E : 2 ^ 30 < 2 ^ 32) by reflexivity.
    rewrite to_size_t_small by lia.
    destruct (Z.ltb_spec core_idx (2 ^ size_shift_ arr)); [lia|reflexivity].
  - discriminate.
Qed.

End Slots.

(** ** Frame *)

Section Frame.
Context {P : Platform} {T : Type}.

(** Each member, run on the world, computes what the member of the class
    computes from [self w], and hands the world back: [Size] and
    [AccessAtCore] as it was, [AccessElementAndIndex] and [Access] with at
    most the generator advanced. *)
Lemma Size_method_runs (w : World T) :
  Size_method w = (n <- Size (self w) ;; Ret (n, w)).
Proof.
  unfold Size_method, Size, bind_, read_size_shift, lift, ret_. cbn [bind].
  destruct (shl_uint 1 (size_shift_ (self w))); reflexivity.
Qed.

Lemma AccessAtCore_method_runs (core_idx : Z) (w : World T) :
  AccessAtCore_method core_idx w = (p <- AccessAtCore (self w) core_idx ;; Ret (p, w)).
Proof.
  unfold AccessAtCore_method, AccessAtCore, assert_method, assert_, element_address.
  destruct NDEBUG; [reflexivity|].
  unfold bind_, read_size_shift, read_data, lift, ret_. cbn [bind].
  destruct (shl_uint 1 (size_shift_ (self w))) as [p| | | |]; try reflexivity.
  cbn [bind]. destruct (core_idx <? to_size_t p); reflexivity.
Qed.

Lemma AccessElementAndIndex_method_runs (cpuid : Z) (w : World T) :
  AccessElementAndIndex_method cpuid w
  = ('(r, rng') <- AccessElementAndIndex (self w) cpuid (tls w) ;;
     Ret (r, {| self := self w; tls := rng'; slots := slots w |})).
Proof.
  destruct w as [arr rng m]. cbn [self tls slots].
  unfold AccessElementAndIndex_method, AccessElementAndIndex, random_index, masked_index.
  unfold bind_ at 1.
  destruct (cpuid <? 0).
  - unfold bind_, read_size_shift, lift, draw_uniform, ret_. cbn [bind self tls slots].
    destruct (shl_int 1 (size_shift_ arr)) as [n| | | |]; try reflexivity.
    cbn [bind self tls slots]. destruct (Uniform rng n) as [r rng'].
    cbn [bind self tls slots].
    rewrite AccessAtCore_method_runs. cbn [self].
    destruct (AccessAtCore arr (to_size_t r)); reflexivity.
  - unfold bind_, read_size_shift, lift, ret_. cbn [bind self tls slots].
    destruct (shl_int 1 (size_shift_ arr)) as [n| | | |]; try reflexivity.
    cbn [bind self tls slots]. destruct (sub_int n 1) as [k| | | |]; try reflexivity.
    cbn [bind self tls slots]. rewrite AccessAtCore_method_runs. cbn [self].
    destruct (AccessAtCore arr (to_size_t (Z.land cpuid k))); reflexivity.
Qed.

Lemma Access_method_runs (cpuid : Z) (w : World T) :
  Access_method cpuid w
  = ('(p, rng') <- Access (self w) cpuid (tls w) ;;
     Ret (p, {| self := self w; tls := rng'; slots := slots w |})).
Proof.
  unfold Access_method, Access. unfold bind_ at 1.
  rewrite AccessElementAndIndex_method_runs.
  destruct (AccessElementAndIndex (self w) cpuid (tls w)) as [[[p i] rng']| | | |];
    reflexivity.
Qed.

(** The constructor, run on the world, is the one that writes the two
    fields: it ends with the array the constructor of the class returns. *)
Lemma ctor_loop_method_runs (fuel : nat) (num_cpus : Z) :
  forall w : World T,
    ctor_loop_method fuel num_cpus w
    = (s <- ctor_loop fuel num_cpus (size_shift_ (self w)) ;;
       Ret (tt, {| self := {| data_ := data_ (self w); size_shift_ := s |};
                   tls := tls w; slots := slots w |})).
Proof.
  induction fuel as [|fuel IH]; intros [[d s] rng m]; [reflexivity|].
  cbn [ctor_loop_method ctor_loop self tls slots data_ size_shift_].
  unfold bind_, read_size_shift, lift, ret_, write_size_shift.
  cbn [bind self tls slots data_ size_shift_].
  destruct (shl_uint 1 s) as [p| | | |]; try reflexivity. cbn [bind].
  destruct (p <? num_cpus); [|reflexivity].
  cbn [bind]. rewrite IH. reflexivity.
Qed.

Lemma CoreLocalArray_ctor_method_runs (fuel : nat) (num_cpus : Z)
    (operator_new : Z -> option Z) (w : World T) :
  CoreLocalArray_ctor_method fuel num_cpus operator_new w
  = (arr <- CoreLocalArray_ctor fuel num_cpus operator_new ;;
     Ret (tt, {| self := arr; tls := tls w; slots := slots w |})).
Proof.
  destruct w as [[d s0] rng m].
  unfold CoreLocalArray_ctor_method, CoreLocalArray_ctor. cbv zeta.
  unfold bind_ at 1. unfold write_size_shift at 1. cbn [bind self tls slots data_].
  unfold bind_ at 1. rewrite ctor_loop_method_runs. cbn [self tls slots data_ size_shift_].
  destruct (ctor_loop fuel num_cpus 3) as [s| | | |]; try reflexivity.
  cbn [bind]. unfold bind_, read_size_shift, lift, reset_data.
  cbn [bind self tls slots data_ size_shift_].
  destruct (shl_int 1 s) as [n| | | |]; try reflexivity. cbn [bind].
  destruct (new_array operator_new n); reflexivity.
Qed.

(** One call keeps the object, and changes the contents of no address other
    than that of the slot a [StoreAtCore] writes. *)
Lemma invoke_frame (c : call T) (w w' : World T) :
  invoke c w = Ret (tt, w') ->
  self w' = self w /\
  (forall q,
     (forall core_idx v, c = StoreAtCore core_idx v -> q <> element_address (self w) core_idx) ->
     slots w' q = slots w q).
Proof.
  destruct c as [|cpuid|cpuid|core_idx|core_idx v]; cbn [invoke]; unfold bind_ at 1.
  - rewrite Size_method_runs.
    destruct (Size (self w)); try discriminate.
    cbn [bind]. unfold ret_. intros [= <-]. auto.
  - rewrite Access_method_runs.
    destruct (Access (self w) cpuid (tls w)) as [[p rng']| | | |]; try discriminate.
    cbn [bind]. unfold ret_. intros [= <-]. auto.
  - rewrite AccessElementAndIndex_method_runs.
    destruct (AccessElementAndIndex (self w) cpuid (tls w)) as [[r rng']| | | |];
      try discriminate.
    cbn [bind]. unfold ret_. intros [= <-]. auto.
  - rewrite AccessAtCore_method_runs.
    destruct (AccessAtCore (self w) core_idx); try discriminate.
    cbn [bind]. unfold ret_. intros [= <-]. auto.
  - rewrite AccessAtCore_method_runs. unfold AccessAtCore.
    destruct (assert_ _); try discriminate. cbn [bind].
    unfold bind_. rewrite Size_method_runs.
    destruct (Size (self w)) as [n| | | |]; try discriminate. cbn [bind].
    destruct ((0 <=? core_idx) && (core_idx <? n)); [|discriminate].
    unfold write_slot. intros [= <-]. cbn [self slots]. split; [reflexivity|].
    intros q Hq. unfold store.
    destruct (Z.eqb_spec q (element_address (self w) core_idx)) as [->|]; [|reflexivity].
    now destruct (Hq core_idx v).
Qed.

(** C9: over any sequence of calls of [Size], [Access],
    [AccessElementAndIndex] and [AccessAtCore], interleaved with stores
    through the pointers [AccessAtCore] gives, [data_] and [size_shift_]
    keep the values they had; the only addresses whose contents change are
    those of slots stored to, so the four members change no content at all. *)
Theorem members_keep_fields (cs : list (call T)) :
  forall w w' : World T,
    run cs w = Ret (tt, w') ->
    data_ (self w') = data_ (self w) /\
    size_shift_ (self w') = size_shift_ (self w) /\
    (forall q,
       (forall core_idx v, In (StoreAtCore core_idx v) cs ->
                           q <> element_address (self w) core_idx) ->
       slots w' q = slots w q).
Proof.
  induction cs as [|c cs IH]; intros w w' Hrun; cbn [run] in Hrun.
  - unfold ret_ in Hrun. injection Hrun as <-. auto.
  - unfold bind_ in Hrun.
    destruct (invoke c w) as [[[] w1]| | | |] eqn:Hstep; try discriminate.
    cbn [bind] in Hrun.
    apply invoke_frame in Hstep. destruct Hstep as [Hself Hslots].
    apply IH in Hrun. destruct Hrun as (Hdata & Hshift & Hrest).
    rewrite Hself in Hdata, Hshift, Hrest.
    split; [assumption|]. split; [assumption|].
    intros q Hq. rewrite Hrest, Hslots.
    + reflexivity.
    + intros core_idx v ->. apply (Hq core_idx v). now left.
    + intros core_idx v Hin. apply (Hq core_idx v). now right.
Qed.

End Frame.

(** ** Evaluations on the two platforms *)

Lemma AccessElementAndIndex_masks_core_id_witness :
  Size arr8 = Ret 8 /\
  AccessAtCore (P := debug_platform) arr8 5 = Ret 4416 /\
  AccessElementAndIndex (P := debug_platform) arr8 13 1 = Ret ((4416, 5), 1) /\
  Access (P := debug_platform) arr8 13 1 = Ret (4416, 1).
Proof.
  assert (Hc : Constructed (P := debug_platform) arr8)
    by (exists 1%nat, 8, block_at_4096; reflexivity).
  destruct (AccessElementAndIndex_masks_core_id (P := debug_platform) arr8 Hc 13 1 ltac:(lia))
    as (size & p & Hsize & Hat & Hp & Hcall & Haccess & _).
  assert (Hsize8 : size = 8) by (vm_compute in Hsize; congruence).
  subst size p.
  split; [reflexivity|]. split; [exact Hat|]. split; [exact Hcall | exact Haccess].
Defined.

Lemma masking_is_modulo_witness :
  masked_index arr8 13 = Ret 5 /\ Z.land 13 (8 - 1) = 13 mod 8 /\ Z.rem 13 8 = 13 mod 8.
Proof.
  assert (Hc : Constructed (P := debug_platform) arr8)
    by (exists 1%nat, 8, block_at_4096; reflexivity).
  destruct (masking_is_modulo (P := debug_platform) arr8 Hc 13 ltac:(lia))
    as (size & Hsize & _ & Hland & Hrem & Hexample).
  assert (Hsize8 : size = 8) by (vm_compute in Hsize; congruence).
  subst size.
  split; [apply Hexample; reflexivity|]. split; [exact Hland | exact Hrem].
Defined.

Lemma Access_deterministic_on_core_witness :
  exists p index,
    AccessElementAndIndex (P := debug_platform) arr8 13 1 = Ret ((p, index), 1) /\
    AccessElementAndIndex (P := debug_platform) arr8 13 2 = Ret ((p, index), 2) /\
    Access (P := debug_platform) arr8 13 1 = Ret (p, 1) /\
    Access (P := debug_platform) arr8 13 2 = Ret (p, 2).
Proof.
  apply (Access_deterministic_on_core (P := debug_platform) arr8).
  - exists 1%nat, 8, block_at_4096. reflexivity.
  - lia.
Defined.

Lemma Access_always_returns_witness :
  exists size p index rng',
    Size arr8 = Ret size /\
    AccessElementAndIndex (P := debug_platform) arr8 (-1) 1 = Ret ((p, index), rng') /\
    Access (P := debug_platform) arr8 (-1) 1 = Ret (p, rng') /\
    0 <= index < size /\
    AccessAtCore (P := debug_platform) arr8 index = Ret p /\
    (-1 < 0 -> (index, rng') = lehmer_uniform 1 size).
Proof.
  apply (Access_always_returns (P := debug_platform)).
  - intros rng n Hn. apply lehmer_uniform_range. exact Hn.
  - exists 1%nat, 8, block_at_4096. reflexivity.
Defined.

Lemma AccessAtCore_injective_witness :
  exists p q,
    AccessAtCore (P := debug_platform) arr8 2 = Ret p /\
    AccessAtCore (P := debug_platform) arr8 7 = Ret q /\
    p <> q /\
    (p + 64 <= q \/ q + 64 <= p) /\
    (4096 <= p /\ p + 64 <= 4096 + 8 * 64) /\
    (4096 <= q /\ q + 64 <= 4096 + 8 * 64).
Proof.
  apply (AccessAtCore_injective (P := debug_platform)); simpl.
  - lia.
  - exists 1%nat, 8, block_at_4096. reflexivity.
  - reflexivity.
  - lia.
  - lia.
  - lia.
Defined.

(** C4 (as stated) fails with assertions compiled out: on the array built
    for 8 cores, [AccessAtCore(8)] fires nothing and returns an address,
    the one just past the block. *)
Lemma AccessAtCore_unchecked_with_NDEBUG :
  CoreLocalArray_ctor (P := release_platform) 1 8 block_at_4096 = Ret arr8 /\
  Size arr8 = Ret 8 /\
  AccessAtCore (P := release_platform) arr8 8 = Ret 4608 /\
  AccessAtCore (P := release_platform) arr8 8 <> AssertFail.
Proof. repeat split; try reflexivity. discriminate. Qed.

Lemma AccessAtCore_out_of_range_witness :
  AccessAtCore (P := debug_platform) arr8 8 = AssertFail /\
  AccessAtCore (P := release_platform) arr8 8 <> AssertFail.
Proof.
  assert (Hd : Constructed (P := debug_platform) arr8)
    by (exists 1%nat, 8, block_at_4096; reflexivity).
  assert (Hr : Constructed (P := release_platform) arr8)
    by (exists 1%nat, 8, block_at_4096; reflexivity).
  destruct (AccessAtCore_out_of_range (P := debug_platform) arr8 Hd 8 8
              ltac:(reflexivity) ltac:(lia)) as [Hdebug _].
  destruct (AccessAtCore_out_of_range (P := release_platform) arr8 Hr 8 8
              ltac:(reflexivity) ltac:(lia)) as [_ Hrelease].
  split; [exact (Hdebug eq_refl) | exact (Hrelease eq_refl)].
Defined.

Lemma members_keep_fields_witness :
  exists w' : World (P := debug_platform) Z,
    run session world8 = Ret (tt, w') /\
    data_ (self w') = 4096 /\
    size_shift_ (self w') = 3 /\
    slots w' (element_address (P := debug_platform) arr8 2) = 7 /\
    slots w' (element_address (P := debug_platform) arr8 3) = 0.
Proof.
  eexists. split; [reflexivity|].
  destruct (members_keep_fields (P := debug_platform) session world8 _ eq_refl)
    as (Hdata & Hshift & Hslots).
  split; [exact Hdata|]. split; [exact Hshift|]. split; [reflexivity|].
  rewrite Hslots; [reflexivity|].
  intros core_idx v Hin. simpl in Hin.
  destruct Hin as [Hin|[Hin|[Hin|[Hin|[Hin|[]]]]]]; try discriminate Hin.
  injection Hin as <- _. discriminate.
Defined.

(** * Further properties of the constructor *)

(** The shift a search from 3 stops at is [rounded_shift]. *)
Lemma least_shift_rounded (n s : Z) :
  3 <= s ->
  n <= 2 ^ s ->
  (forall k, 3 <= k < s -> 2 ^ k < n) ->
  s = rounded_shift n.
Proof.
  intros Hs Hreach Hbelow. unfold rounded_shift.
  assert (E8 : 2 ^ 3 = 8) by reflexivity.
  destruct (Z.le_gt_cases n 8) as [Hsmall|Hbig].
  - assert (s = 3).
    { destruct (Z.eq_dec s 3) as [|Hne]; [assumption|].
      specialize (Hbelow 3 ltac:(lia)). lia. }
    assert (Z.log2_up n <= 3).
    { destruct (Z.le_gt_cases n 0) as [Hneg|Hpos].
      - rewrite Z.log2_up_nonpos by assumption. lia.
      - apply Z.log2_up_le_pow2; lia. }
    lia.
  - pose proof (Z.log2_up_spec n ltac:(lia)) as [_ Hup].
    assert (Z.log2_up n <= s) by (apply Z.log2_up_le_pow2; lia).
    assert (3 < Z.log2_up n).
    { destruct (Z.le_gt_cases (Z.log2_up n) 3) as [Hle|]; [|assumption].
      apply Z.log2_up_le_pow2 in Hle; lia. }
    assert (s <= Z.log2_up n).
    { destruct (Z.le_gt_cases s (Z.log2_up n)) as [|Hlt]; [assumption|].
      specialize (Hbelow (Z.log2_up n) ltac:(lia)). lia. }
    lia.
Qed.

(** What the loop gives for a count the 32-bit powers can reach. *)
Lemma ctor_loop_rounded (fuel : nat) (n : Z) :
  n <= 2 ^ 31 ->
  (29 <= fuel)%nat ->
  ctor_loop fuel n 3 = Ret (rounded_shift n) /\ 3 <= rounded_shift n <= 31.
Proof.
  intros Hn Hfuel.
  destruct (ctor_loop_terminates fuel n 3) as [s Hloop]; try lia.
  destruct (ctor_loop_Ret fuel n 3 s ltac:(lia) Hloop) as (Hrange & Hreach & Hbelow).
  rewrite <- (least_shift_rounded n s) by (assumption || lia).
  split; [assumption | lia].
Qed.

Section ConstructionMore.
Context {P : Platform}.

(** X1: for every processor count up to 2^31 the constructor's loop stops
    within 29 tests, at the exponent of the least power of two that is at
    least the count and at least 8; that exponent is between 3 and 31. *)
Theorem ctor_loop_stops_at_rounded_shift (fuel : nat) (num_cpus : Z) :
  num_cpus <= 2 ^ 31 ->
  (29 <= fuel)%nat ->
  ctor_loop fuel num_cpus 3 = Ret (rounded_shift num_cpus) /\
  3 <= rounded_shift num_cpus <= 31 /\
  Z.max num_cpus 8 <= 2 ^ rounded_shift num_cpus /\
  2 ^ rounded_shift num_cpus < 2 * Z.max num_cpus 8.
Proof.
  intros Hn Hfuel.
  destruct (ctor_loop_rounded fuel num_cpus Hn Hfuel) as [Hloop Hrange].
  destruct (ctor_loop_Ret fuel num_cpus 3 _ ltac:(lia) Hloop) as (_ & Hreach & Hbelow).
  split; [assumption|]. split; [assumption|].
  pose proof (pow2_bounds 3 (rounded_shift num_cpus) ltac:(lia)) as H8.
  change (2 ^ 3) with 8 in H8.
  split; [lia|].
  destruct (Z.eq_dec (rounded_shift num_cpus) 3) as [->|Hne].
  - change (2 ^ 3) with 8. lia.
  - specialize (Hbelow (rounded_shift num_cpus - 1) ltac:(lia)).
    replace (2 ^ rounded_shift num_cpus) with (2 * 2 ^ (rounded_shift num_cpus - 1)).
    + lia.
    + rewrite <- Z.pow_succ_r by lia. f_equal. lia.
Qed.

(** X2: with at most 2^30 processors reported the constructor evaluates
    [new T[n]] with the length [n = 2^shift], [shift] being the rounded
    exponent and [n] a positive [int] (the signed shift does not overflow);
    it stores what [new T[n]] gives in [data_] and the shift in
    [size_shift_], and ends in [std::bad_alloc] when [new T[n]] throws. *)
Theorem ctor_allocates_or_throws (fuel : nat) (num_cpus : Z) (operator_new : Z -> option Z) :
  num_cpus <= 2 ^ 30 ->
  (29 <= fuel)%nat ->
  shl_int 1 (rounded_shift num_cpus) = Ret (2 ^ rounded_shift num_cpus) /\
  8 <= 2 ^ rounded_shift num_cpus <= INT_MAX /\
  CoreLocalArray_ctor fuel num_cpus operator_new
  = (p <- new_array operator_new (2 ^ rounded_shift num_cpus) ;;
     Ret {| data_ := p; size_shift_ := rounded_shift num_cpus |}) /\
  (new_array operator_new (2 ^ rounded_shift num_cpus) = BadAlloc ->
   CoreLocalArray_ctor fuel num_cpus operator_new = BadAlloc).
Proof.
  intros Hn Hfuel.
  assert (E : 2 ^ 30 < 2 ^ 31) by reflexivity.
  destruct (ctor_loop_rounded fuel num_cpus ltac:(lia) Hfuel) as [Hloop Hrange].
  destruct (ctor_loop_Ret fuel num_cpus 3 _ ltac:(lia) Hloop) as (_ & _ & Hbelow).
  assert (Hs : rounded_shift num_cpus <= 30).
  { destruct (Z.eq_dec (rounded_shift num_cpus) 31) as [E31|]; [|lia].
    specialize (Hbelow 30 ltac:(lia)). lia. }
  pose proof (pow2_bounds 3 (rounded_shift num_cpus) ltac:(lia)) as Hlo.
  pose proof (pow2_bounds (rounded_shift num_cpus) 30 ltac:(lia)) as Hhi.
  change (2 ^ 3) with 8 in Hlo.
  assert (Hctor : CoreLocalArray_ctor fuel num_cpus operator_new
                  = (p <- new_array operator_new (2 ^ rounded_shift num_cpus) ;;
                     Ret {| data_ := p; size_shift_ := rounded_shift num_cpus |})).
  { unfold CoreLocalArray_ctor. cbv zeta. rewrite Hloop. cbn [bind].
    rewrite shl_int_1 by lia. reflexivity. }
  split; [apply shl_int_1; lia|].
  split; [unfold INT_MAX; lia|].
  split; [exact Hctor|].
  intros Hthrow. rewrite Hctor, Hthrow. reflexivity.
Qed.

(** X3: with more than 2^30 and at most 2^31 processors reported the loop
    stops at shift 31; the [int] length [1 << 31] is negative, so [new T[]]
    throws without the allocation function being asked, whatever it would
    have given. No array has more than 2^30 slots. *)
Theorem ctor_negative_length (fuel : nat) (num_cpus : Z) (operator_new : Z -> option Z) :
  2 ^ 30 < num_cpus <= 2 ^ 31 ->
  (29 <= fuel)%nat ->
  ctor_loop fuel num_cpus 3 = Ret 31 /\
  shl_int 1 31 = Ret INT_MIN /\
  CoreLocalArray_ctor fuel num_cpus operator_new = BadAlloc.
Proof.
  intros Hn Hfuel.
  destruct (ctor_loop_terminates fuel num_cpus 3) as [s Hloop]; try lia.
  destruct (ctor_loop_Ret fuel num_cpus 3 s ltac:(lia) Hloop) as (Hrange & Hreach & _).
  assert (s = 31) as ->.
  { destruct (Z.eq_dec s 31) as [|Hne]; [assumption|].
    pose proof (pow2_bounds s 30 ltac:(lia)). lia. }
  split; [assumption|]. split; [reflexivity|].
  unfold CoreLocalArray_ctor. cbv zeta. rewrite Hloop. reflexivity.
Qed.

(** X4: the number of slots grows with the number of processors reported:
    of two constructed arrays, the one built for no more processors has no
    more slots. *)
Theorem Size_monotone (fuel1 fuel2 : nat) (n1 n2 : Z) (new1 new2 : Z -> option Z)
    (arr1 arr2 : CoreLocalArray) :
  CoreLocalArray_ctor fuel1 n1 new1 = Ret arr1 ->
  CoreLocalArray_ctor fuel2 n2 new2 = Ret arr2 ->
  n1 <= n2 ->
  exists size1 size2,
    Size arr1 = Ret size1 /\ Size arr2 = Ret size2 /\ size1 <= size2.
Proof.
  intros H1 H2 Hle.
  apply ctor_Ret_inv in H1. destruct H1 as (Hloop1 & Hs1 & _).
  apply ctor_Ret_inv in H2. destruct H2 as (Hloop2 & Hs2 & _).
  destruct (ctor_loop_Ret fuel1 n1 3 _ ltac:(lia) Hloop1) as (_ & _ & Hbelow1).
  destruct (ctor_loop_Ret fuel2 n2 3 _ ltac:(lia) Hloop2) as (_ & Hreach2 & _).
  exists (2 ^ size_shift_ arr1), (2 ^ size_shift_ arr2).
  split; [apply Size_pow2; lia|]. split; [apply Size_pow2; lia|].
  apply Z.pow_le_mono_r; [lia|].
  destruct (Z.le_gt_cases (size_shift_ arr1) (size_shift_ arr2)) as [|Hlt]; [assumption|].
  specialize (Hbelow1 (size_shift_ arr2) ltac:(lia)). lia.
Qed.

End ConstructionMore.

Lemma ctor_loop_stops_at_rounded_shift_witness :
  ctor_loop 29 20 3 = Ret 5 /\ 3 <= 5 <= 31 /\ Z.max 20 8 <= 2 ^ 5 /\ 2 ^ 5 < 2 * Z.max 20 8.
Proof.
  apply (ctor_loop_stops_at_rounded_shift 29 20).
  - discriminate.
  - apply le_n.
Defined.

Lemma ctor_allocates_or_throws_witness :
  shl_int 1 4 = Ret 16 /\
  8 <= 16 <= INT_MAX /\
  CoreLocalArray_ctor (P := debug_platform) 29 16 (fun _ => None)
  = (p <- new_array (P := debug_platform) (fun _ => None) 16 ;;
     Ret {| data_ := p; size_shift_ := 4 |}) /\
  CoreLocalArray_ctor (P := debug_platform) 29 16 (fun _ => None) = BadAlloc.
Proof.
  destruct (ctor_allocates_or_throws (P := debug_platform) 29 16 (fun _ => None))
    as (Hshift & Hlength & Hctor & Hthrows).
  - discriminate.
  - apply le_n.
  - split; [exact Hshift|]. split; [exact Hlength|]. split; [exact Hctor|].
    apply Hthrows. reflexivity.
Defined.

Lemma ctor_negative_length_witness :
  ctor_loop 29 1073741825 3 = Ret 31 /\
  shl_int 1 31 = Ret INT_MIN /\
  CoreLocalArray_ctor (P := debug_platform) 29 1073741825 block_at_4096 = BadAlloc.
Proof.
  apply (ctor_negative_length (P := debug_platform) 29 1073741825 block_at_4096).
  - split; [reflexivity | discriminate].
  - apply le_n.
Defined.

Lemma Size_monotone_witness :
  exists size1 size2,
    Size arr8 = Ret size1 /\ Size {| data_ := 4096; size_shift_ := 5 |} = Ret size2 /\
    size1 <= size2.
Proof.
  apply (Size_monotone (P := debug_platform) 1 29 8 20 block_at_4096 block_at_4096).
  - reflexivity.
  - reflexivity.
  - lia.
Defined.

(** * Further properties of the accessors *)

Section AccessMore.
Context {P : Platform}.

(** X5: on the array the constructor built for [num_cpus] processors, a
    core id below [num_cpus] is its own index: [AccessElementAndIndex]
    returns [(&data_[cpuid], cpuid)], so two different such cores are handed
    two different slots. *)
Theorem reported_cores_get_own_slots (fuel : nat) (num_cpus : Z)
    (operator_new : Z -> option Z) (arr : CoreLocalArray) (c1 c2 : Z) (rng : Random) :
  0 < sizeof_T ->
  CoreLocalArray_ctor fuel num_cpus operator_new = Ret arr ->
  0 <= c1 < num_cpus ->
  0 <= c2 < num_cpus ->
  c1 <> c2 ->
  AccessElementAndIndex arr c1 rng = Ret ((element_address arr c1, c1), rng) /\
  AccessElementAndIndex arr c2 rng = Ret ((element_address arr c2, c2), rng) /\
  element_address arr c1 <> element_address arr c2.
Proof.
  intros Hsz Hctor Hc1 Hc2 Hne.
  assert (Hcon : Constructed arr) by (now exists fuel, num_cpus, operator_new).
  apply ctor_Ret_inv in Hctor. destruct Hctor as (Hloop & Hshift & _).
  destruct (ctor_loop_Ret fuel num_cpus 3 _ ltac:(lia) Hloop) as (_ & Hreach & _).
  assert (Hown : forall c, 0 <= c < num_cpus ->
            AccessElementAndIndex arr c rng = Ret ((element_address arr c, c), rng)).
  { intros c Hc.
    rewrite (AccessElementAndIndex_identified arr Hcon c rng) by lia.
    destruct (masked_index_mod arr Hcon c ltac:(lia)) as (_ & -> & _).
    rewrite Z.mod_small by lia. reflexivity. }
  split; [now apply Hown|]. split; [now apply Hown|].
  unfold element_address. nia.
Qed.

(** X6: core ids that differ by a multiple of [Size()] are handed the same
    slot and the same index. *)
Theorem cores_apart_by_Size_share_slot (arr : CoreLocalArray) (size cpuid k : Z)
    (rng : Random) :
  Constructed arr ->
  Size arr = Ret size ->
  0 <= cpuid ->
  0 <= k ->
  AccessElementAndIndex arr (cpuid + k * size) rng = AccessElementAndIndex arr cpuid rng.
Proof.
  intros Hcon Hsize Hc Hk.
  rewrite (Size_Constructed arr Hcon) in Hsize. injection Hsize as <-.
  pose proof (Size_bounds arr Hcon) as Hsz.
  rewrite !(AccessElementAndIndex_identified arr Hcon) by nia.
  destruct (masked_index_mod arr Hcon cpuid Hc) as (_ & -> & _).
  destruct (masked_index_mod arr Hcon (cpuid + k * 2 ^ size_shift_ arr) ltac:(nia))
    as (_ & -> & _).
  rewrite Z.mod_add by lia. reflexivity.
Qed.

(** X7: with assertions compiled in, and nothing assumed about the number
    [Uniform] draws, [AccessElementAndIndex] on a constructed array either
    fails the assertion of [AccessAtCore] or returns an index below
    [Size()] with the address of that slot; it never hands out a pointer
    outside the block and never runs into undefined behaviour. *)
Theorem AccessElementAndIndex_checked (arr : CoreLocalArray) (cpuid : Z) (rng : Random) :
  NDEBUG = false ->
  Constructed arr ->
  AccessElementAndIndex arr cpuid rng = AssertFail \/
  exists index rng',
    AccessElementAndIndex arr cpuid rng = Ret ((element_address arr index, index), rng') /\
    0 <= index /\
    Size arr = Ret (2 ^ size_shift_ arr) /\
    index < 2 ^ size_shift_ arr.
Proof.
  intros Hdebug Hcon.
  pose proof (Constructed_shift_range arr Hcon) as Hshift.
  pose proof (Size_bounds arr Hcon) as Hsz.
  assert (E : 2 ^ 30 < 2 ^ 32) by reflexivity.
  destruct (Z.lt_ge_cases cpuid 0) as [Hneg|Hpos].
  - unfold AccessElementAndIndex, random_index.
    destruct (Z.ltb_spec cpuid 0); [|lia].
    rewrite shl_int_1 by lia. cbn [bind].
    destruct (Uniform rng (2 ^ size_shift_ arr)) as [r rng']. cbn [bind].
    unfold AccessAtCore, assert_. rewrite Hdebug.
    rewrite shl_uint_1 by lia. cbn [bind].
    rewrite (to_size_t_small (2 ^ size_shift_ arr)) by lia.
    assert (Hidx : 0 <= to_size_t r) by (apply Z.mod_pos_bound; reflexivity).
    destruct (Z.ltb_spec (to_size_t r) (2 ^ size_shift_ arr)).
    + right. exists (to_size_t r), rng'. cbn [bind].
      split; [reflexivity|]. split; [assumption|].
      split; [now apply Size_Constructed | assumption].
    + left. reflexivity.
  - right. destruct (masked_index_mod arr Hcon cpuid ltac:(lia)) as (_ & Hland & Hmod).
    exists (Z.land cpuid (2 ^ size_shift_ arr - 1)), rng.
    split; [apply AccessElementAndIndex_identified; [assumption|lia]|].
    split; [lia|]. split; [now apply Size_Constructed | lia].
Qed.

(** X8: a store through [AccessAtCore(i)] is read back through
    [AccessAtCore(i)], leaves the contents of every other slot of the array
    as they were, and changes neither the object nor the generator. *)
Theorem store_keeps_other_slots {T : Type} (w : World T) (size i : Z) (v : T) :
  0 < sizeof_T ->
  Constructed (self w) ->
  Size (self w) = Ret size ->
  0 <= i < size ->
  exists w',
    perform (StoreAtCore i v) w = Ret w' /\
    self w' = self w /\
    tls w' = tls w /\
    slots w' (element_address (self w) i) = v /\
    (forall j, 0 <= j < size -> j <> i ->
       AccessAtCore (self w') j = Ret (element_address (self w) j) /\
       slots w' (element_address (self w) j) = slots w (element_address (self w) j)).
Proof.
  intros Hsz Hcon Hsize Hi.
  pose proof Hsize as Hsize'.
  rewrite (Size_Constructed (self w) Hcon) in Hsize'. injection Hsize' as <-.
  exists {| self := self w; tls := tls w;
            slots := store (slots w) (element_address (self w) i) v |}.
  split.
  - cbn [perform]. rewrite (AccessAtCore_in_range (self w) Hcon) by lia. cbn [bind].
    rewrite Hsize. cbn [bind].
    destruct (Z.leb_spec 0 i); [|lia].
    destruct (Z.ltb_spec i (2 ^ size_shift_ (self w))); [|lia].
    reflexivity.
  - cbn [self tls slots]. split; [reflexivity|]. split; [reflexivity|].
    split.
    + unfold store. now rewrite Z.eqb_refl.
    + intros j Hj Hne. split.
      * apply AccessAtCore_in_range; [assumption|lia].
      * unfold store, element_address.
        destruct (Z.eqb_spec (data_ (self w) + j * sizeof_T) (data_ (self w) + i * sizeof_T));
          [nia|reflexivity].
Qed.

End AccessMore.

Lemma reported_cores_get_own_slots_witness :
  AccessElementAndIndex (P := debug_platform) arr8 2 1 = Ret ((4224, 2), 1) /\
  AccessElementAndIndex (P := debug_platform) arr8 7 1 = Ret ((4544, 7), 1) /\
  4224 <> 4544.
Proof.
  apply (reported_cores_get_own_slots (P := debug_platform) 1 8 block_at_4096 arr8 2 7 1).
  - reflexivity.
  - reflexivity.
  - lia.
  - lia.
  - discriminate.
Defined.

Lemma cores_apart_by_Size_share_slot_witness :
  AccessElementAndIndex (P := debug_platform) arr8 (5 + 3 * 8) 1
  = AccessElementAndIndex (P := debug_platform) arr8 5 1.
Proof.
  apply (cores_apart_by_Size_share_slot (P := debug_platform) arr8 8 5 3 1).
  - exists 1%nat, 8, block_at_4096. reflexivity.
  - reflexivity.
  - lia.
  - lia.
Defined.

Lemma AccessElementAndIndex_checked_witness :
  AccessElementAndIndex (P := debug_platform) arr8 (-1) 1 = AssertFail \/
  exists index rng',
    AccessElementAndIndex (P := debug_platform) arr8 (-1) 1
    = Ret ((element_address (P := debug_platform) arr8 index, index), rng') /\
    0 <= index /\ Size arr8 = Ret (2 ^ 3) /\ index < 2 ^ 3.
Proof.
  apply (AccessElementAndIndex_checked (P := debug_platform) arr8 (-1) 1).
  - reflexivity.
  - exists 1%nat, 8, block_at_4096. reflexivity.
Defined.

Lemma store_keeps_other_slots_witness :
  exists w' : World (P := debug_platform) Z,
    perform (StoreAtCore 2 7) world8 = Ret w' /\
    self w' = arr8 /\
    tls w' = 1 /\
    slots w' 4224 = 7 /\
    (forall j, 0 <= j < 8 -> j <> 2 ->
       AccessAtCore (P := debug_platform) (self w') j
       = Ret (element_address (P := debug_platform) arr8 j) /\
       slots w' (element_address (P := debug_platform) arr8 j)
       = slots world8 (element_address (P := debug_platform) arr8 j)).
Proof.
  apply (store_keeps_other_slots (P := debug_platform) world8 8 2 7).
  - reflexivity.
  - exists 1%nat, 8, block_at_4096. reflexivity.
  - reflexivity.
  - lia.
Defined.
